(** * The Kafka sample producer (example/python/producer.py)

    The script creates a producer, sets a counter to 1 and then loops for
    ever: it draws two random floats, builds the dict [data], publishes its
    JSON text to the topic "test", prints a progress line, increments the
    counter, flushes with a one second timeout and sleeps half a second.

    The script is embedded as an interaction tree over the calls it makes
    to its environment (random, produce, print, flush, sleep). Floats are
    IEEE 754 binary64 values, taken from the Standard Library's executable
    specification [SpecFloat]; Python integers are [Z]. *)

From Stdlib Require Import ZArith List String Ascii Bool Lia.
From Stdlib Require Import Floats.SpecFloat DecimalString DecimalPos DecimalZ FinFun.
From ITree Require Import ITree.

Import ListNotations.
Import ITreeNotations.

Local Open Scope string_scope.
Local Open Scope list_scope.
Local Open Scope itree_scope.
Local Open Scope Z_scope.

(** ** Python floats: binary64 *)

Module B64.

Definition prec : Z := 53.
Definition emax : Z := 1024.

Definition valid (x : spec_float) : bool := valid_binary prec emax x.
Definition add (x y : spec_float) : spec_float := SFadd prec emax x y.
Definition leb (x y : spec_float) : bool := SFleb x y.
Definition ltb (x y : spec_float) : bool := SFltb x y.

Definition is_finite (x : spec_float) : bool :=
  match x with
  | S754_zero _ | S754_finite _ _ _ => true
  | S754_infinity _ | S754_nan => false
  end.

(** [float(n)] for a Python int [n]; exact for the small literals of the
    script. *)
Definition of_int (n : Z) : spec_float := binary_normalize prec emax n 0 false.

Definition zero : spec_float := S754_zero false.
Definition one : spec_float := of_int 1.
Definition two : spec_float := of_int 2.
(** The literal [0.5]. *)
Definition half : spec_float := S754_finite false (2 ^ 52) (-53).
(** [1 - 2**-53], the largest binary64 value below 1. CPython's
    [random()] returns [(a * 2**26 + b) / 2**53] for a 27-bit [a] and a
    26-bit [b], so this is the largest value it returns. *)
Definition below_one : spec_float := S754_finite false (2 ^ 53 - 1) (-53).

End B64.

(** ** Python values built by the script *)

Variant pyvalue : Type :=
| PyInt (n : Z)
| PyFloat (x : spec_float)
| PyStr (s : string).

(** A dict with string keys, in insertion order. *)
Definition pydict : Type := list (string * pyvalue).

(** [n + y] for an int [n] and a float [y]: the int is converted with
    [float()] and the sum is a float addition. *)
Definition int_add_float (n : Z) (y : spec_float) : spec_float :=
  B64.add (B64.of_int n) y.

(** [str(n)] for an int: decimal digits, with a minus sign when negative. *)
Definition str_of_int (n : Z) : string := NilZero.string_of_int (Z.to_int n).

(** ["Sample #{} produced!".format(counter)] *)
Definition progress_line (counter : Z) : string :=
  "Sample #" ++ str_of_int counter ++ " produced!".

(** ** JSON documents

    [json.dumps] belongs to the Python runtime. It is modelled by the JSON
    document it writes: a dict becomes an object with the same members in
    the same order, an int or a float becomes a number, a str a string.
    The text layout and the digits chosen for a float are the runtime's
    and are a function of the document. *)

Variant jvalue : Type :=
| JInt (n : Z)
| JFloat (x : spec_float)
| JString (s : string).

Record json : Type := JObject { members : list (string * jvalue) }.

Definition json_of_value (v : pyvalue) : jvalue :=
  match v with
  | PyInt n => JInt n
  | PyFloat x => JFloat x
  | PyStr s => JString s
  end.

Definition json_dumps (d : pydict) : json :=
  JObject (map (fun kv => (fst kv, json_of_value (snd kv))) d).

(** A JSON number: any int, and any finite float ([json.dumps] writes NaN
    and Infinity for the others, which JSON does not have). *)
Definition is_number (v : jvalue) : bool :=
  match v with
  | JInt _ => true
  | JFloat x => B64.is_finite x
  | JString _ => false
  end.

Definition keys (j : json) : list string := map fst (members j).

(** ** Calls to the environment *)

Variant call : Type :=
| NewProducer (conf : pydict)          (* Producer(conf) *)
| Random                               (* random() *)
| Produce (topic : string) (value : json)  (* producer.produce(topic, value=...) *)
| Print (line : string)                (* print(line); the newline is print's *)
| Flush (timeout : Z)                  (* producer.flush(timeout) *)
| Sleep (secs : spec_float).           (* sleep(secs) *)

(** What a call returns: [random()] a float, [flush] the number of
    messages still queued, the others nothing the script uses. *)
Definition answer (c : call) : Type :=
  match c with
  | Random => spec_float
  | Flush _ => Z
  | _ => unit
  end.

Variant ioE : Type -> Type :=
| Call (c : call) : ioE (answer c).

Definition do (c : call) : itree ioE (answer c) := ITree.trigger (Call c).

(** ** The script *)

Definition conf : pydict := [("bootstrap.servers", PyStr "localhost:9092")].

(** [{"value1": random(), "value2": 1 + random()}], given the results of
    the two calls in evaluation order. *)
Definition sample (r1 r2 : spec_float) : pydict :=
  [("value1", PyFloat r1);
   ("value2", PyFloat (int_add_float 1 r2))].

(** One pass through the body of [while True]; [inl] is the counter the
    next pass starts with, [inr] would leave the loop. *)
Definition body (counter : Z) : itree ioE (Z + unit) :=
  r1 <- do Random ;;
  r2 <- do Random ;;
  let data := sample r1 r2 in
  do (Produce "test" (json_dumps data)) ;;
  do (Print (progress_line counter)) ;;
  let counter := counter + 1 in
  do (Flush 1) ;;
  do (Sleep B64.half) ;;
  Ret (inl counter).

Definition loop_from (counter : Z) : itree ioE unit := ITree.iter body counter.

(** [counter = 1] followed by the loop. *)
Definition loop : itree ioE unit := loop_from 1.

Definition script : itree ioE unit :=
  do (NewProducer conf) ;;
  loop.

(** ** Running the script against an environment

    An environment answers the [k]-th call of a run (counted from 0), or
    makes it raise ([None]). The script has no handler, so a raised error
    ends the run. Fuel bounds the number of steps (calls and silent loop
    steps) of the finite run that is observed. *)

Definition env : Type := nat -> forall c : call, option (answer c).

Variant outcome : Type :=
| Pending (rest : itree ioE unit)   (* out of fuel; [rest] is still to run *)
| Raised                            (* the last call raised *)
| Finished.                         (* the script ran to its end *)

Definition after (c : call) (r : list call * outcome) : list call * outcome :=
  (c :: fst r, snd r).

Fixpoint run (w : env) (fuel : nat) (k : nat) (t : itree ioE unit)
  : list call * outcome :=
  match fuel with
  | O => ([], Pending t)
  | S fuel' =>
      match observe t with
      | RetF _ => ([], Finished)
      | TauF t' => run w fuel' k t'
      | VisF e h =>
          match e in ioE X return (X -> itree ioE unit) -> list call * outcome with
          | Call c => fun h =>
              match w k c with
              | None => ([c], Raised)
              | Some a => after c (run w fuel' (S k) (h a))
              end
          end h
      end
  end.

(** The calls made, and how the run ended, when [t] is entered at call
    number [k]. *)
Definition trace (w : env) (fuel k : nat) (t : itree ioE unit) : list call :=
  fst (run w fuel k t).

Definition result (w : env) (fuel k : nat) (t : itree ioE unit) : outcome :=
  snd (run w fuel k t).

(** [w] answers each of the [n] calls from number [k] on. *)
Definition answers (w : env) (k n : nat) : Prop :=
  forall (j : nat) (c : call), (k <= j < k + n)%nat -> w j c <> None.

(** [w] raises at call number [k]. *)
Definition raises (w : env) (k : nat) : Prop :=
  forall c : call, w k c = None.

(** What [random()] returned at call [k] (0.0 when it raised). *)
Definition drawn (w : env) (k : nat) : spec_float :=
  match w k Random with
  | Some r => r
  | None => B64.zero
  end.

(** The calls of one pass through the loop body with counter [c], when
    the two draws return [r1] and [r2]. *)
Definition pass_calls (r1 r2 : spec_float) (c : Z) : list call :=
  [Random; Random; Produce "test" (json_dumps (sample r1 r2));
   Print (progress_line c); Flush 1; Sleep B64.half].

(** The calls of the pass entered at call [k] with counter [c]. *)
Definition pass_at (w : env) (k : nat) (c : Z) : list call :=
  pass_calls (drawn w k) (drawn w (1 + k)) c.

(** The calls of [n] passes in a row. *)
Fixpoint passes (w : env) (k : nat) (c : Z) (n : nat) : list call :=
  match n with
  | O => []
  | S n' => pass_at w k c ++ passes w (6 + k) (c + 1) n'
  end.

(** The payloads, destinations and console lines of a list of calls. *)
Definition payloads (tr : list call) : list json :=
  flat_map (fun c => match c with Produce _ v => [v] | _ => [] end) tr.

Definition destinations (tr : list call) : list string :=
  flat_map (fun c => match c with Produce t _ => [t] | _ => [] end) tr.

Definition printed (tr : list call) : list string :=
  flat_map (fun c => match c with Print l => [l] | _ => [] end) tr.

(** The value of a member of a JSON object. *)
Fixpoint assoc (key : string) (l : list (string * jvalue)) : option jvalue :=
  match l with
  | [] => None
  | (k, v) :: l' => if String.eqb key k then Some v else assoc key l'
  end.

Definition member (key : string) (j : json) : option jvalue :=
  assoc key (members j).

(** The contract of [random()]: a binary64 value in [0.0, 1.0). *)
Definition unit_draw (r : spec_float) : Prop :=
  B64.valid r = true /\ B64.leb B64.zero r = true /\ B64.ltb r B64.one = true.

Definition fair (w : env) : Prop :=
  forall (k : nat) (r : spec_float), w k Random = Some r -> unit_draw r.

(** Environments used as concrete inputs: every call returns, and each
    draw is [r]; the same, except that call [j] raises. *)
Definition steady (r : spec_float) : env := fun _ c =>
  match c return option (answer c) with
  | Random => Some r
  | Flush _ => Some 0
  | _ => Some tt
  end.

Definition failing (j : nat) (r : spec_float) : env := fun k c =>
  if Nat.eqb k j then None else steady r k c.

(** Every call returns; the draws are [r0] before call [j] and [r] from
    call [j] on. *)
Definition switching (j : nat) (r0 r : spec_float) : env := fun k c =>
  if Nat.ltb k j then steady r0 k c else steady r k c.

(** The ranges of the two fields of a payload. [in_open_range] has
    [value2] below 2.0; [in_closed_range] lets it reach 2.0. *)
Definition in_open_range (p : json) : Prop :=
  exists v1 v2,
    member "value1" p = Some (JFloat v1) /\
    member "value2" p = Some (JFloat v2) /\
    B64.leb B64.zero v1 = true /\ B64.ltb v1 B64.one = true /\
    B64.leb B64.one v2 = true /\ B64.ltb v2 B64.two = true.

Definition in_closed_range (p : json) : Prop :=
  exists v1 v2,
    member "value1" p = Some (JFloat v1) /\
    member "value2" p = Some (JFloat v2) /\
    B64.leb B64.zero v1 = true /\ B64.ltb v1 B64.one = true /\
    B64.leb B64.one v2 = true /\ B64.leb v2 B64.two = true.

(** The two draws of pass [i] (counted from 0) of a loop entered at call
    [k]: every complete pass makes six calls. *)
Definition first_draw (w : env) (k i : nat) : spec_float := drawn w (6 * i + k).
Definition second_draw (w : env) (k i : nat) : spec_float := drawn w (1 + (6 * i + k)).

(** Counting the calls of one kind in a list of calls. *)
Definition is_new_producer (c : call) : bool :=
  match c with NewProducer _ => true | _ => false end.
Definition is_draw (c : call) : bool :=
  match c with Random => true | _ => false end.
Definition is_produce (c : call) : bool :=
  match c with Produce _ _ => true | _ => false end.
Definition is_print (c : call) : bool :=
  match c with Print _ => true | _ => false end.
Definition is_flush (c : call) : bool :=
  match c with Flush _ => true | _ => false end.
Definition is_sleep (c : call) : bool :=
  match c with Sleep _ => true | _ => false end.

Definition count (f : call -> bool) (tr : list call) : nat :=
  List.length (filter f tr).

(** Two environments that return the same draws and raise at the same
    calls; what [flush] and the other calls return may differ. *)
Definition same_draws_and_errors (w1 w2 : env) : Prop :=
  forall k : nat,
    w1 k Random = w2 k Random /\
    forall c : call, w1 k c = None <-> w2 k c = None.

(** Every call returns, each draw is [r], and [flush] reports [q]
    messages still queued. *)
Definition backlog (q : Z) (r : spec_float) : env := fun _ c =>
  match c return option (answer c) with
  | Random => Some r
  | Flush _ => Some q
  | _ => Some tt
  end.


(** A run that is still going on when its fuel is used up. *)
Definition still_running (w : env) (fuel k : nat) (t : itree ioE unit) : Prop :=
  exists rest, result w fuel k t = Pending rest.

(** One step of [run] on the loop, leaving the arguments of the calls as
    they are; and the end of a run that stops inside a pass. *)
Ltac step_run :=
  cbn -[progress_line json_dumps sample B64.half Z.add passes pass_at].

Ltac stop_here j :=
  left; exists j; split; [reflexivity | cbn; discriminate].

(** One call of the loop in two environments that agree on the draws
    and on the calls that raise. *)
Ltac sync H w1 w2 :=
  match goal with
  | |- context [w1 ?i Random] =>
      destruct (H i) as [-> _];
      destruct (w2 i Random) as [?|]; [|reflexivity]
  | |- context [w1 ?i ?c] =>
      let E1 := fresh "E" in
      let E2 := fresh "E" in
      destruct (w1 i c) as [?|] eqn:E1; destruct (w2 i c) as [?|] eqn:E2;
      [ | apply (H i) in E2; congruence | apply (H i) in E1; congruence
        | reflexivity ]
  end.

(** ** Binary64 arithmetic of the sample

    [SFadd] aligns the two mantissas, adds them and rounds the sum to 53
    bits, to nearest and to even on a tie. For [1.0 + r] with [r] in
    [0.0, 1.0) the sum lies in [1, 2), the rounded mantissa in
    [2^52, 2^53], and the result is 2.0 when it reaches [2^53]. *)

Lemma digits2_pos_bounds p :
  2 ^ (Zpos (digits2_pos p) - 1) <= Zpos p < 2 ^ Zpos (digits2_pos p).
Proof.
  induction p as [p IH|p IH|]; cbn [digits2_pos].
  - rewrite Pos2Z.inj_succ, (Pos2Z.inj_xI p).
    replace (Z.succ (Zpos (digits2_pos p)) - 1) with (Z.succ (Zpos (digits2_pos p) - 1)) by lia.
    rewrite !Z.pow_succ_r by lia.
    revert IH. generalize (2 ^ (Zpos (digits2_pos p) - 1)) (2 ^ Zpos (digits2_pos p)). intros; lia.
  - rewrite Pos2Z.inj_succ, (Pos2Z.inj_xO p).
    replace (Z.succ (Zpos (digits2_pos p)) - 1) with (Z.succ (Zpos (digits2_pos p) - 1)) by lia.
    rewrite !Z.pow_succ_r by lia.
    revert IH. generalize (2 ^ (Zpos (digits2_pos p) - 1)) (2 ^ Zpos (digits2_pos p)). intros; lia.
  - cbn. lia.
Qed.

Lemma digits2_pos_unique p n :
  2 ^ (n - 1) <= Zpos p < 2 ^ n -> Zpos (digits2_pos p) = n.
Proof.
  intros [L U]. pose proof (digits2_pos_bounds p) as [L' U'].
  set (d := Zpos (digits2_pos p)) in *.
  assert (0 < n).
  { destruct (Z_lt_le_dec 0 n) as [|Hn]; trivial. exfalso.
    destruct (Z.eq_dec n 0) as [->|].
    - cbn in U. lia.
    - rewrite Z.pow_neg_r in U by lia. lia. }
  assert (d - 1 < n). { apply (Z.pow_lt_mono_r_iff 2); lia. }
  assert (n - 1 < d). { apply (Z.pow_lt_mono_r_iff 2); lia. }
  lia.
Qed.

Lemma shr_1_m mrs : 0 <= shr_m mrs -> shr_m (shr_1 mrs) = shr_m mrs / 2.
Proof.
  destruct mrs as [m r s]. cbn [shr_m]. intros H.
  rewrite <- Z.div2_div.
  destruct m as [|[p|p|]|p]; try reflexivity; lia.
Qed.

Lemma shr_iter_m p : forall mrs,
  0 <= shr_m mrs -> shr_m (iter_pos shr_1 p mrs) = shr_m mrs / 2 ^ Zpos p.
Proof.
  induction p as [p IH|p IH|]; intros mrs H; cbn [iter_pos].
  - assert (H1 : 0 <= shr_m (shr_1 mrs)).
    { rewrite shr_1_m by trivial. apply Z.div_pos; lia. }
    assert (H2 : 0 <= shr_m (iter_pos shr_1 p (shr_1 mrs))).
    { rewrite IH by trivial. apply Z.div_pos; lia. }
    rewrite IH, IH, shr_1_m by trivial.
    rewrite !Z.div_div by lia.
    rewrite (Pos2Z.inj_xI p), Z.pow_add_r, Z.pow_mul_r, Z.pow_1_r by lia.
    f_equal. change (2 ^ 2) with 4.
    replace 4 with (2*2) by lia. rewrite Z.pow_mul_l. lia.
  - assert (H2 : 0 <= shr_m (iter_pos shr_1 p mrs)).
    { rewrite IH by trivial. apply Z.div_pos; lia. }
    rewrite IH, IH by trivial.
    rewrite !Z.div_div by lia.
    rewrite (Pos2Z.inj_xO p), Z.pow_mul_r by lia.
    f_equal. replace (2 ^ 2) with (2*2) by lia. rewrite Z.pow_mul_l. lia.
  - rewrite shr_1_m by trivial. now rewrite Z.pow_1_r.
Qed.

Lemma iter_xO_value d : forall m, Zpos (Pos.iter xO m d) = Zpos m * 2 ^ Zpos d.
Proof.
  induction d as [|d IH] using Pos.peano_ind; intros m.
  - cbn [Pos.iter]. rewrite Z.pow_1_r. lia.
  - rewrite Pos.iter_succ, (Pos2Z.inj_xO (Pos.iter xO m d)), IH, Pos2Z.inj_succ, Z.pow_succ_r by lia. lia.
Qed.

Lemma one_eq : B64.one = S754_finite false 4503599627370496 (-52).
Proof. reflexivity. Qed.

Lemma two_eq : B64.two = S754_finite false 4503599627370496 (-51).
Proof. reflexivity. Qed.

Lemma fexp_eq x : fexp B64.prec B64.emax x = Z.max (x - 53) (-1074).
Proof. reflexivity. Qed.

Lemma unit_draw_shape r :
  unit_draw r ->
  (exists s, r = S754_zero s) \/
  (exists m e, r = S754_finite false m e /\ -1074 <= e <= -53 /\ Zpos m < 2 ^ 53).
Proof.
  intros (V & L & U). destruct r as [s| | |s m e].
  - left. now exists s.
  - destruct s; discriminate.
  - discriminate.
  - right. exists m, e.
    destruct s; [discriminate|].
    unfold B64.valid, valid_binary, bounded, canonical_mantissa in V.
    apply andb_true_iff in V. destruct V as [C _].
    apply Z.eqb_eq in C. rewrite fexp_eq in C.
    pose proof (digits2_pos_bounds m) as [D1 D2].
    rewrite one_eq in U. unfold B64.ltb, SFltb, SFcompare in U.
    assert (D : Zpos (digits2_pos m) <= 53) by (clear - C; lia).
    assert (P : 2 ^ Zpos (digits2_pos m) <= 2 ^ 53)
      by (apply Z.pow_le_mono_r; clear - D; lia).
    destruct (Z.compare_spec e (-52)) as [E|E|E]; [exfalso| |discriminate U].
    + pose proof (Pos.compare_spec m 4503599627370496) as S.
      unfold Pos.compare in S.
      destruct S as [| M |]; [discriminate U| |discriminate U].
      assert (D' : Zpos (digits2_pos m) - 1 = 52) by (clear - C E; lia).
      rewrite D' in D1. apply Pos2Z.pos_lt_pos in M.
      change (2 ^ 52) with 4503599627370496 in D1.
      clear - D1 M. lia.
    + repeat split; [clear - C; lia|clear - E; lia|].
      clear - D2 P. revert D2 P. generalize (2 ^ Zpos (digits2_pos m)).
      change (2 ^ 53) with 9007199254740992. intros; lia.
Qed.

Lemma round_nearest_even_cases m l :
  round_nearest_even m l = m \/ round_nearest_even m l = m + 1.
Proof.
  destruct l as [|[| |]]; cbn [round_nearest_even]; auto.
  destruct (Z.even m); auto.
Qed.

(** Rounding a positive [M * 2^e] that lies in [1, 2): the mantissa is
    shifted down to 53 bits and rounded, and the result is 2.0 when the
    rounded mantissa reaches [2^53]. *)
Lemma binary_round_in_1_2 (M : positive) (e : Z) :
  e <= -53 ->
  2 ^ (- e) <= Zpos M < 2 ^ (1 - e) ->
  exists r,
    (r = Zpos M / 2 ^ (-52 - e) \/ r = Zpos M / 2 ^ (-52 - e) + 1) /\
    2 ^ 52 <= r <= 2 ^ 53 /\
    binary_round B64.prec B64.emax false M e =
    if r =? 2 ^ 53 then B64.two else S754_finite false (Z.to_pos r) (-52).
Proof.
  intros He HM.
  assert (DM : Zpos (digits2_pos M) = 1 - e).
  { apply digits2_pos_unique. now replace (1 - e - 1) with (- e) by lia. }
  unfold binary_round. rewrite DM.
  replace (1 - e + e) with 1 by lia. rewrite fexp_eq.
  change (Z.max (1 - 53) (-1074)) with (-52).
  unfold shl_align.
  destruct (-52 - e) as [|p|p] eqn:Ep; [lia| |lia].
  unfold binary_round_aux, shr_fexp. cbn [Zdigits2]. rewrite DM.
  replace (1 - e + e) with 1 by lia. rewrite fexp_eq.
  change (Z.max (1 - 53) (-1074)) with (-52).
  rewrite Ep. cbn [shr shr_record_of_loc].
  replace (e + Zpos p) with (-52) by (clear - Ep; lia).
  set (mrs := iter_pos shr_1 p _).
  assert (Q : shr_m mrs = Zpos M / 2 ^ Zpos p).
  { unfold mrs. rewrite shr_iter_m; [reflexivity|cbn; lia]. }
  assert (B : 2 ^ 52 <= shr_m mrs < 2 ^ 53).
  { rewrite Q. clear - HM Ep.
    assert (P : 0 < 2 ^ Zpos p) by (apply Z.pow_pos_nonneg; lia).
    replace (- e) with (52 + Zpos p) in HM by lia.
    replace (1 - e) with (53 + Zpos p) in HM by lia.
    rewrite !Z.pow_add_r in HM by lia.
    split.
    - apply Z.div_le_lower_bound; [exact P|]. rewrite Z.mul_comm. apply HM.
    - apply Z.div_lt_upper_bound; [exact P|]. rewrite Z.mul_comm. apply HM. }
  generalize (loc_of_shr_record mrs). intros l.
  rewrite <- Q. revert B. generalize (shr_m mrs). clear. intros q0 B.
  exists (round_nearest_even q0 l).
  split; [apply round_nearest_even_cases|].
  change (2 ^ 52) with 4503599627370496 in *.
  change (2 ^ 53) with 9007199254740992 in *.
  assert (R : 4503599627370496 <= round_nearest_even q0 l <= 9007199254740992)
    by (destruct (round_nearest_even_cases q0 l) as [-> | ->]; lia).
  split; [exact R|].
  revert R. generalize (round_nearest_even q0 l). clear. intros r R.
  destruct (Z.eqb_spec r 9007199254740992) as [->|N].
  - reflexivity.
  - destruct r as [|q|q]; [lia| |lia].
    cbn [Zdigits2 Z.to_pos].
    rewrite (digits2_pos_unique q 53)
      by (change (2 ^ (53 - 1)) with 4503599627370496;
          change (2 ^ 53) with 9007199254740992; lia).
    reflexivity.
Qed.

(** The float sum [1.0 + m * 2^e] for a draw below 1.0. *)
Lemma add_one_finite m e :
  -1074 <= e <= -53 -> Zpos m < 2 ^ 53 ->
  exists r,
    (r = (2 ^ (- e) + Zpos m) / 2 ^ (-52 - e) \/
     r = (2 ^ (- e) + Zpos m) / 2 ^ (-52 - e) + 1) /\
    2 ^ 52 <= r <= 2 ^ 53 /\
    B64.add B64.one (S754_finite false m e) =
    if r =? 2 ^ 53 then B64.two else S754_finite false (Z.to_pos r) (-52).
Proof.
  intros He Hm. unfold B64.add. rewrite one_eq. unfold SFadd.
  rewrite Z.min_r by lia. unfold shl_align. rewrite Z.sub_diag.
  destruct (e - -52) as [|d|d] eqn:Ed; [lia|lia|].
  cbn [fst cond_Zopp Z.add binary_normalize].
  assert (V : Zpos (Pos.iter xO 4503599627370496%positive d + m) = 2 ^ (- e) + Zpos m).
  { rewrite Pos2Z.inj_add, iter_xO_value.
    change (Zpos 4503599627370496) with (2 ^ 52).
    rewrite <- Z.pow_add_r by lia.
    now replace (52 + Zpos d) with (- e) by (clear - Ed; lia). }
  rewrite <- V. apply binary_round_in_1_2; [lia|].
  rewrite V.
  replace (1 - e) with (Z.succ (- e)) by lia.
  rewrite Z.pow_succ_r by lia.
  assert (P : 2 ^ 53 <= 2 ^ (- e)) by (apply Z.pow_le_mono_r; lia).
  clear - Hm P. revert Hm P. generalize (2 ^ (- e)).
  change (2 ^ 53) with 9007199254740992. intros; lia.
Qed.

Lemma finite_in_1_2 q :
  2 ^ 52 <= Zpos q < 2 ^ 53 ->
  B64.leb B64.one (S754_finite false q (-52)) = true /\
  B64.ltb (S754_finite false q (-52)) B64.two = true.
Proof.
  intros Hq. split; [|reflexivity].
  rewrite one_eq. unfold B64.leb, SFleb, SFcompare.
  change (-52 ?= -52) with Eq.
  pose proof (Pos.compare_spec 4503599627370496 q) as S.
  unfold Pos.compare in S. destruct S as [| |S]; try reflexivity.
  exfalso. apply Pos2Z.pos_lt_pos in S.
  change (2 ^ 52) with 4503599627370496 in Hq. clear - Hq S. lia.
Qed.

(** [1 + r] for a draw [r] of the unit interval lies between 1.0 and 2.0,
    both included. *)
Lemma add_one_unit_draw r :
  unit_draw r ->
  B64.leb B64.one (B64.add B64.one r) = true /\
  B64.leb (B64.add B64.one r) B64.two = true.
Proof.
  intros H. destruct (unit_draw_shape r H) as [[s ->]|(m & e & -> & He & Hm)].
  - split; reflexivity.
  - destruct (add_one_finite m e He Hm) as (q & _ & Hq & ->).
    destruct (Z.eqb_spec q (2 ^ 53)) as [_|N]; [split; reflexivity|].
    destruct q as [|q|q]; try (exfalso; clear - Hq; lia).
    cbn [Z.to_pos].
    destruct (finite_in_1_2 q) as [L U]; [lia|].
    split; [exact L|].
    unfold B64.ltb, SFltb in U. unfold B64.leb, SFleb.
    now destruct (SFcompare _ _) as [[| |]|].
Qed.

(** The sum stays below 2.0 for every draw other than [1 - 2^-53]. *)
Lemma add_one_below_two r :
  unit_draw r -> r <> B64.below_one ->
  B64.ltb (B64.add B64.one r) B64.two = true.
Proof.
  intros H N. destruct (unit_draw_shape r H) as [[s ->]|(m & e & -> & He & Hm)].
  - reflexivity.
  - destruct (add_one_finite m e He Hm) as (q & Q & Hq & E).
    assert (B : q < 2 ^ 53 \/ (e = -53 /\ 2 ^ 53 - 2 <= Zpos m)).
    { destruct (Z_lt_le_dec (Zpos m) ((2 ^ 52 - 1) * 2 ^ (-52 - e))) as [S|S].
      - left.
        assert (P : 0 < 2 ^ (-52 - e)) by (apply Z.pow_pos_nonneg; lia).
        assert (D : (2 ^ (- e) + Zpos m) / 2 ^ (-52 - e) < 2 ^ 53 - 1).
        { apply Z.div_lt_upper_bound; [exact P|].
          replace (- e) with (52 + (-52 - e)) at 1 by lia.
          rewrite Z.pow_add_r by lia.
          clear - S P. revert S P. generalize (2 ^ (-52 - e)).
          change (2 ^ 52) with 4503599627370496.
          change (2 ^ 53) with 9007199254740992. intros; lia. }
        clear - Q D. lia.
      - right.
        destruct (Z.eq_dec e (-53)) as [->|Ne].
        + split; [reflexivity|]. change (-52 - -53) with 1 in S.
          clear - S. change (2 ^ 1) with 2 in S.
          change (2 ^ 52) with 4503599627370496 in S.
          change (2 ^ 53) with 9007199254740992. lia.
        + exfalso.
          assert (P : 2 ^ 2 <= 2 ^ (-52 - e)) by (apply Z.pow_le_mono_r; lia).
          clear - S P Hm. revert S P. generalize (2 ^ (-52 - e)).
          change (2 ^ 2) with 4. change (2 ^ 52) with 4503599627370496.
          change (2 ^ 53) with 9007199254740992 in Hm. intros; lia. }
    destruct B as [B|[-> B]].
    + rewrite E.
      destruct (Z.eqb_spec q (2 ^ 53)) as [E'|_]; [exfalso; clear - B E'; lia|].
      destruct q as [|q|q]; try (exfalso; clear - Hq; lia).
      apply finite_in_1_2. clear - Hq B. lia.
    + clear - N B Hm. change (2 ^ 53) with 9007199254740992 in *.
      assert (C : m = 9007199254740990%positive \/ m = 9007199254740991%positive) by lia.
      destruct C as [-> | ->]; [reflexivity|].
      exfalso. apply N. reflexivity.
Qed.

(** ** One pass of the loop *)

Lemma run_pass (w : env) fuel k c r1 r2 q :
  w k Random = Some r1 ->
  w (1 + k)%nat Random = Some r2 ->
  w (2 + k)%nat (Produce "test" (json_dumps (sample r1 r2))) = Some tt ->
  w (3 + k)%nat (Print (progress_line c)) = Some tt ->
  w (4 + k)%nat (Flush 1) = Some q ->
  w (5 + k)%nat (Sleep B64.half) = Some tt ->
  run w (7 + fuel) k (loop_from c) =
  (pass_calls r1 r2 c ++ trace w fuel (6 + k) (loop_from (c + 1)),
   result w fuel (6 + k) (loop_from (c + 1))).
Proof.
  intros H0 H1 H2 H3 H4 H5. cbn [Nat.add] in *.
  step_run. rewrite H0. step_run. rewrite H1. step_run. rewrite H2.
  step_run. rewrite H3. step_run. rewrite H4. step_run. rewrite H5.
  reflexivity.
Qed.

Lemma answered (w : env) k n j (c : call) :
  answers w k n -> (k <= j < k + n)%nat -> exists a, w j c = Some a.
Proof.
  intros A Hj. specialize (A j c Hj).
  destruct (w j c) as [a|]; [now exists a | congruence].
Qed.

Lemma answered_tt (w : env) k n j (c : call) :
  answer c = unit ->
  answers w k n -> (k <= j < k + n)%nat -> forall a : answer c, w j c = Some a.
Proof.
  intros U A Hj a. destruct (answered w k n j c A Hj) as [b E].
  rewrite E. f_equal. clear E. revert a b. rewrite U. now intros [] [].
Qed.

Lemma run_pass_answered (w : env) fuel k c :
  answers w k 6 ->
  run w (7 + fuel) k (loop_from c) =
  (pass_at w k c ++ trace w fuel (6 + k) (loop_from (c + 1)),
   result w fuel (6 + k) (loop_from (c + 1))).
Proof.
  intros A.
  destruct (answered w k 6 k Random A) as [r1 E1]; [lia|].
  destruct (answered w k 6 (1 + k) Random A) as [r2 E2]; [lia|].
  destruct (answered w k 6 (4 + k) (Flush 1) A) as [q E4]; [lia|].
  unfold pass_at, drawn. rewrite E1, E2.
  apply run_pass with (q := q); trivial;
    apply (answered_tt w k 6); trivial; lia.
Qed.

Lemma answers_split (w : env) k m n :
  answers w k (m + n) -> answers w k m /\ answers w (m + k) n.
Proof.
  intros A. split; intros j c Hj; apply A; lia.
Qed.

Lemma run_passes (w : env) n : forall fuel k c,
  answers w k (6 * n) ->
  run w (7 * n + fuel) k (loop_from c) =
  (passes w k c n ++ trace w fuel (6 * n + k) (loop_from (c + Z.of_nat n)),
   result w fuel (6 * n + k) (loop_from (c + Z.of_nat n))).
Proof.
  induction n as [|n IH]; intros fuel k c A.
  - cbn [passes Nat.mul Nat.add app Z.of_nat]. rewrite Z.add_0_r.
    unfold trace, result. now destruct (run w fuel k (loop_from c)).
  - replace (6 * S n)%nat with (6 + 6 * n)%nat in A by lia.
    apply answers_split in A. destruct A as [A1 A2].
    replace (7 * S n + fuel)%nat with (7 + (7 * n + fuel))%nat by lia.
    rewrite (run_pass_answered w _ k c A1).
    unfold trace, result. rewrite (IH fuel (6 + k)%nat (c + 1) A2).
    cbn [fst snd passes].
    replace (6 * n + (6 + k))%nat with (6 * S n + k)%nat by lia.
    replace (c + 1 + Z.of_nat n) with (c + Z.of_nat (S n)) by lia.
    now rewrite app_assoc.
Qed.

(** [n] passes, each of seven steps, in an environment that answers. *)
Lemma run_complete (w : env) n k c :
  answers w k (6 * n) ->
  run w (7 * n) k (loop_from c) =
  (passes w k c n, Pending (loop_from (c + Z.of_nat n))).
Proof.
  intros A. replace (7 * n)%nat with (7 * n + 0)%nat by lia.
  rewrite (run_passes w n 0 k c A).
  cbn [trace result run fst snd]. now rewrite app_nil_r.
Qed.

(** A call that raises inside a pass ends the run there, whatever fuel is
    left. *)
Lemma run_raise (w : env) k c j fuel :
  (j < 6)%nat -> answers w k j -> raises w (j + k) ->
  run w (j + 1 + fuel) k (loop_from c) = (firstn (j + 1) (pass_at w k c), Raised).
Proof.
  intros Hj A R. unfold pass_at, drawn.
  destruct j as [|j]; cbn [Nat.add] in R |- *.
  { step_run. now rewrite R. }
  destruct (answered w k _ k Random A) as [r1 E1]; [lia|].
  step_run. rewrite E1.
  destruct j as [|j]; cbn [Nat.add] in R |- *.
  { step_run. now rewrite R. }
  destruct (answered w k _ (S k) Random A) as [r2 E2]; [lia|].
  step_run. rewrite E2.
  destruct j as [|j]; cbn [Nat.add] in R |- *.
  { step_run. now rewrite R. }
  destruct (answered w k _ (S (S k))
              (Produce "test" (json_dumps (sample r1 r2))) A) as [a3 E3]; [lia|].
  step_run. rewrite E3.
  destruct j as [|j]; cbn [Nat.add] in R |- *.
  { step_run. now rewrite R. }
  destruct (answered w k _ (S (S (S k))) (Print (progress_line c)) A)
    as [a4 E4]; [lia|].
  step_run. rewrite E4.
  destruct j as [|j]; cbn [Nat.add] in R |- *.
  { step_run. now rewrite R. }
  destruct (answered w k _ (S (S (S (S k)))) (Flush 1) A) as [a5 E5]; [lia|].
  step_run. rewrite E5.
  destruct j as [|j]; cbn [Nat.add] in R |- *.
  { step_run. now rewrite R. }
  lia.
Qed.

(** ** Every finite run of the loop *)

(** A run of the loop either stops inside its first pass, out of fuel or
    on a raised call, or completes the pass and goes on with the counter
    incremented. *)
Lemma run_cases (w : env) fuel k c :
  (exists j, trace w fuel k (loop_from c) = firstn j (pass_at w k c) /\
             result w fuel k (loop_from c) <> Finished) \/
  (exists fuel', fuel = (7 + fuel')%nat /\
     run w fuel k (loop_from c) =
     (pass_at w k c ++ trace w fuel' (6 + k) (loop_from (c + 1)),
      result w fuel' (6 + k) (loop_from (c + 1)))).
Proof.
  unfold trace, result, pass_at, drawn.
  destruct fuel as [|fuel]; [stop_here 0%nat|].
  step_run. destruct (w k Random) as [r1|]; [|stop_here 1%nat].
  destruct fuel as [|fuel]; [stop_here 1%nat|].
  step_run. destruct (w (S k) Random) as [r2|]; [|stop_here 2%nat].
  destruct fuel as [|fuel]; [stop_here 2%nat|].
  step_run. destruct (w (S (S k)) _) as [[]|]; [|stop_here 3%nat].
  destruct fuel as [|fuel]; [stop_here 3%nat|].
  step_run. destruct (w (S (S (S k))) _) as [[]|]; [|stop_here 4%nat].
  destruct fuel as [|fuel]; [stop_here 4%nat|].
  step_run. destruct (w (S (S (S (S k)))) _) as [q|]; [|stop_here 5%nat].
  destruct fuel as [|fuel]; [stop_here 5%nat|].
  step_run. destruct (w (S (S (S (S (S k))))) _) as [[]|]; [|stop_here 6%nat].
  destruct fuel as [|fuel]; [stop_here 6%nat|].
  right. exists fuel. split; reflexivity.
Qed.

(** The calls of any finite run of the loop are the beginning of some
    number of complete passes. *)
Lemma run_prefix (w : env) : forall fuel k c,
  exists n rest, passes w k c n = trace w fuel k (loop_from c) ++ rest.
Proof.
  induction fuel as [fuel IH] using (well_founded_induction lt_wf).
  intros k c. destruct (run_cases w fuel k c) as [[j [T _]]|[fuel' [F R]]].
  - exists 1%nat, (skipn j (pass_at w k c)).
    rewrite T. cbn [passes]. now rewrite app_nil_r, firstn_skipn.
  - destruct (IH fuel' ltac:(lia) (6 + k)%nat (c + 1)) as [n [rest P]].
    exists (S n), rest. unfold trace at 1. rewrite R.
    cbn [fst passes]. now rewrite P, app_assoc.
Qed.

(** No finite run of the loop reaches the end of the script. *)
Lemma run_unfinished (w : env) : forall fuel k c,
  result w fuel k (loop_from c) <> Finished.
Proof.
  induction fuel as [fuel IH] using (well_founded_induction lt_wf).
  intros k c. destruct (run_cases w fuel k c) as [[j [_ U]]|[fuel' [F R]]].
  - exact U.
  - unfold result at 1. rewrite R. cbn [snd]. apply IH. lia.
Qed.

(** ** What complete passes publish and print *)

Lemma payloads_app tr1 tr2 : payloads (tr1 ++ tr2) = payloads tr1 ++ payloads tr2.
Proof. apply flat_map_app. Qed.

Lemma destinations_app tr1 tr2 :
  destinations (tr1 ++ tr2) = destinations tr1 ++ destinations tr2.
Proof. apply flat_map_app. Qed.

Lemma printed_app tr1 tr2 : printed (tr1 ++ tr2) = printed tr1 ++ printed tr2.
Proof. apply flat_map_app. Qed.

Lemma payloads_passes (w : env) n : forall k c i p,
  nth_error (payloads (passes w k c n)) i = Some p ->
  p = json_dumps (sample (drawn w (6 * i + k)) (drawn w (1 + (6 * i + k)))).
Proof.
  induction n as [|n IH]; intros k c i p H.
  - now destruct i.
  - cbn [passes] in H. rewrite payloads_app in H.
    destruct i as [|i].
    + cbn in H. now inversion H.
    + cbn [pass_at pass_calls payloads flat_map app nth_error] in H.
      apply IH in H. rewrite H.
      now replace (6 * i + (6 + k))%nat with (6 * S i + k)%nat by lia.
Qed.

Lemma destinations_passes (w : env) n : forall k c,
  destinations (passes w k c n) = repeat "test"%string n.
Proof.
  induction n as [|n IH]; intros k c; [reflexivity|].
  cbn [passes]. rewrite destinations_app, IH. reflexivity.
Qed.

Lemma printed_passes (w : env) n : forall k c,
  printed (passes w k c n) =
  map (fun i => progress_line (c + Z.of_nat i)) (seq 0 n).
Proof.
  induction n as [|n IH]; intros k c; [reflexivity|].
  cbn [passes]. rewrite printed_app, IH.
  cbn [pass_at pass_calls printed flat_map app seq map Z.of_nat].
  rewrite Z.add_0_r. f_equal.
  rewrite <- seq_shift, map_map. apply map_ext. intros i.
  f_equal. lia.
Qed.

Lemma length_passes (w : env) n : forall k c,
  List.length (passes w k c n) = (6 * n)%nat.
Proof.
  induction n as [|n IH]; intros k c; [reflexivity|].
  cbn [passes]. rewrite length_app, IH. cbn [pass_at pass_calls List.length]. lia.
Qed.

Lemma passes_segment (w : env) n : forall k c i,
  (i < n)%nat ->
  firstn 6 (skipn (6 * i) (passes w k c n)) = pass_at w (6 * i + k) (c + Z.of_nat i).
Proof.
  induction n as [|n IH]; intros k c i Hi; [lia|].
  destruct i as [|i].
  - cbn [passes Nat.mul Nat.add skipn Z.of_nat]. rewrite Z.add_0_r. reflexivity.
  - replace (6 * S i)%nat with (6 * i + 6)%nat by lia.
    cbn [passes]. change (pass_at w k c ++ passes w (6 + k) (c + 1) n)
      with (firstn 6 (pass_at w k c) ++ passes w (6 + k) (c + 1) n).
    rewrite <- skipn_skipn.
    change (skipn 6 (firstn 6 (pass_at w k c) ++ passes w (6 + k) (c + 1) n))
      with (passes w (6 + k) (c + 1) n).
    rewrite IH by lia.
    replace (6 * i + (6 + k))%nat with (6 * i + 6 + k)%nat by lia.
    now replace (c + 1 + Z.of_nat i) with (c + Z.of_nat (S i)) by lia.
Qed.

(** ** Environments *)

Lemma unit_draw_zero : unit_draw B64.zero.
Proof. repeat split. Qed.

Lemma fair_drawn (w : env) k : fair w -> unit_draw (drawn w k).
Proof.
  intros F. unfold drawn. destruct (w k Random) as [r|] eqn:E.
  - exact (F k r E).
  - exact unit_draw_zero.
Qed.

Lemma unit_draw_finite r : unit_draw r -> B64.is_finite r = true.
Proof.
  intros H. now destruct (unit_draw_shape r H) as [[s ->]|(m & e & -> & _)].
Qed.

Lemma between_finite x :
  B64.leb B64.one x = true -> B64.leb x B64.two = true -> B64.is_finite x = true.
Proof.
  destruct x as [s|[|]| |s m e]; try reflexivity; discriminate.
Qed.

(** The payload of pass [i] of any finite run of the loop is the JSON
    document of the sample built from the two draws of that pass. *)
Lemma published_payload (w : env) fuel k c i p :
  nth_error (payloads (trace w fuel k (loop_from c))) i = Some p ->
  p = json_dumps (sample (first_draw w k i) (second_draw w k i)).
Proof.
  intros H. destruct (run_prefix w fuel k c) as [n [rest P]].
  apply (payloads_passes w n k c i p).
  rewrite P, payloads_app, nth_error_app1; [exact H|].
  apply nth_error_Some. congruence.
Qed.

(** The calls of pass [i] in a run of [n] complete passes. *)
Lemma trace_segment (w : env) k n i :
  answers w k (6 * n) -> (i < n)%nat ->
  firstn 6 (skipn (6 * i) (trace w (7 * n) k loop)) =
  pass_at w (6 * i + k) (Z.of_nat i + 1).
Proof.
  intros A Hi. unfold trace, loop. rewrite (run_complete w n k 1 A). cbn [fst].
  rewrite (passes_segment w n k 1 i Hi). now rewrite (Z.add_comm 1).
Qed.

(** The script creates the producer and enters the loop at call 1. *)
Lemma run_script (w : env) fuel :
  w 0%nat (NewProducer conf) = Some tt ->
  run w (S (S fuel)) 0 script = after (NewProducer conf) (run w (S fuel) 1 loop).
Proof.
  intros E. change (run w (S (S fuel)) 0 script)
    with (match w 0%nat (NewProducer conf) with
          | None => ([NewProducer conf], Raised)
          | Some a => after (NewProducer conf)
                        (run w (S fuel) 1 (ITree.bind (Ret a) (fun _ => loop)))
          end).
  now rewrite E.
Qed.

(** ** The claims *)

(** C1, as amended. Every sample the loop publishes, in an environment
    whose [random()] returns binary64 values of [0.0, 1.0), has
    0 <= value1 < 1 and 1 <= value2 <= 2; value2 is below 2 unless the
    second draw of the pass is [1 - 2^-53]. *)
Theorem sample_range (w : env) fuel k i p :
  fair w ->
  nth_error (payloads (trace w fuel k loop)) i = Some p ->
  in_closed_range p /\
  (second_draw w k i <> B64.below_one -> in_open_range p).
Proof.
  intros F H. apply published_payload in H. subst p.
  pose proof (fair_drawn w (6 * i + k) F) as (V1 & L1 & U1).
  pose proof (fair_drawn w (1 + (6 * i + k)) F) as D2.
  destruct (add_one_unit_draw _ D2) as [L2 U2].
  split.
  - exists (first_draw w k i), (int_add_float 1 (second_draw w k i)).
    repeat split; assumption.
  - intros N.
    exists (first_draw w k i), (int_add_float 1 (second_draw w k i)).
    repeat split; try assumption.
    now apply add_one_below_two.
Qed.

Lemma sample_range_witness :
  in_closed_range (json_dumps (sample B64.half B64.half)) /\
  (second_draw (steady B64.half) 0 0 <> B64.below_one ->
   in_open_range (json_dumps (sample B64.half B64.half))).
Proof.
  apply (sample_range (steady B64.half) 3 0 0).
  - intros k r E. injection E as <-. repeat split.
  - reflexivity.
Defined.

(** C1 as stated fails: when [random()] returns [1 - 2^-53], the sum
    [1 + random()] is halfway between the two nearest floats and rounds to
    2.0, so value2 is not below 2. *)
Lemma value2_reaches_two :
  fair (steady B64.below_one) /\
  nth_error (payloads (trace (steady B64.below_one) 3 0 loop)) 0 =
    Some (json_dumps (sample B64.below_one B64.below_one)) /\
  member "value2" (json_dumps (sample B64.below_one B64.below_one)) =
    Some (JFloat B64.two) /\
  B64.ltb B64.two B64.two = false /\
  ~ in_open_range (json_dumps (sample B64.below_one B64.below_one)).
Proof.
  split; [|split; [|split; [|split]]]; try reflexivity.
  - intros k r E. injection E as <-. repeat split.
  - intros (v1 & v2 & _ & M2 & _ & _ & _ & U).
    injection M2 as <-. discriminate U.
Qed.

(** C2. The counter starts at 1 and each pass adds 1: when [n] passes
    have completed, the loop goes on with the counter at [n + 1], so pass
    number [n] (counted from 1) starts with the counter at [n]. *)
Theorem counter_sequence (w : env) k n :
  answers w k (6 * n) ->
  run w (7 * n) k loop = (passes w k 1 n, Pending (loop_from (Z.of_nat n + 1))).
Proof.
  intros A. unfold loop. rewrite (run_complete w n k 1 A).
  now rewrite (Z.add_comm 1).
Qed.

Lemma counter_sequence_witness :
  run (steady B64.half) 14 0 loop =
  (passes (steady B64.half) 0 1 2, Pending (loop_from 3)).
Proof.
  apply (counter_sequence (steady B64.half) 0 2).
  intros j c _. destruct c; discriminate.
Defined.

(** C3. Every publish call of every finite run of the loop names the
    destination "test"; [n] complete passes make exactly [n] publish
    calls, and each pass makes exactly one. *)
Theorem publish_destination (w : env) fuel k n i :
  answers w k (6 * n) ->
  Forall (fun d => d = "test"%string) (destinations (trace w fuel k loop)) /\
  destinations (trace w (7 * n) k loop) = repeat "test"%string n /\
  ((i < n)%nat ->
   destinations (firstn 6 (skipn (6 * i) (trace w (7 * n) k loop))) =
   ["test"%string]).
Proof.
  intros A. split; [|split].
  - destruct (run_prefix w fuel k 1) as [m [rest P]].
    assert (D : Forall (fun d => d = "test"%string)
                  (destinations (trace w fuel k loop) ++ destinations rest)).
    { unfold loop. rewrite <- destinations_app, <- P, destinations_passes.
      apply Forall_forall. intros d Hd. now apply repeat_spec in Hd. }
    now apply Forall_app in D.
  - unfold trace, loop. rewrite (run_complete w n k 1 A). cbn [fst].
    apply destinations_passes.
  - intros Hi. now rewrite (trace_segment w k n i A Hi).
Qed.

Lemma publish_destination_witness :
  Forall (fun d => d = "test"%string)
    (destinations (trace (steady B64.half) 10 0 loop)) /\
  destinations (trace (steady B64.half) 14 0 loop) = ["test"%string; "test"%string] /\
  ((1 < 2)%nat ->
   destinations (firstn 6 (skipn 6 (trace (steady B64.half) 14 0 loop))) =
   ["test"%string]).
Proof.
  apply (publish_destination (steady B64.half) 10 0 2 1).
  intros j c _. destruct c; discriminate.
Defined.

(** C4. Every payload the loop publishes is a JSON object with exactly
    the members "value1" and "value2", in this order, both numbers; it is
    built from the two draws of its pass alone, whatever the counter. *)
Theorem payload_shape (w : env) fuel k c i p :
  fair w ->
  nth_error (payloads (trace w fuel k (loop_from c))) i = Some p ->
  keys p = ["value1"%string; "value2"%string] /\
  Forall (fun kv => is_number (snd kv) = true) (members p) /\
  p = JObject [("value1"%string, JFloat (first_draw w k i));
               ("value2"%string, JFloat (int_add_float 1 (second_draw w k i)))].
Proof.
  intros F H. apply published_payload in H. subst p.
  split; [reflexivity|]. split; [|reflexivity].
  pose proof (fair_drawn w (6 * i + k) F) as D1.
  pose proof (fair_drawn w (1 + (6 * i + k)) F) as D2.
  destruct (add_one_unit_draw _ D2) as [L2 U2].
  repeat constructor; cbn [snd is_number].
  - now apply unit_draw_finite.
  - now apply between_finite.
Qed.

Lemma payload_shape_witness :
  keys (json_dumps (sample B64.half B64.half)) = ["value1"%string; "value2"%string] /\
  Forall (fun kv => is_number (snd kv) = true)
    (members (json_dumps (sample B64.half B64.half))) /\
  json_dumps (sample B64.half B64.half) =
  JObject [("value1"%string, JFloat (first_draw (steady B64.half) 0 1));
           ("value2"%string,
            JFloat (int_add_float 1 (second_draw (steady B64.half) 0 1)))].
Proof.
  apply (payload_shape (steady B64.half) 10 0 7 1).
  - intros k r E. injection E as <-. repeat split.
  - reflexivity.
Defined.



Lemma printed_prefix (w : env) fuel k c i l :
  nth_error (printed (trace w fuel k (loop_from c))) i = Some l ->
  l = progress_line (c + Z.of_nat i).
Proof.
  intros H. destruct (run_prefix w fuel k c) as [n [rest P]].
  assert (H' : nth_error (printed (passes w k c n)) i = Some l).
  { rewrite P, printed_app, nth_error_app1; [exact H|].
    apply nth_error_Some. congruence. }
  rewrite printed_passes in H'.
  assert (Hi : (i < n)%nat).
  { assert (N : nth_error (map (fun j => progress_line (c + Z.of_nat j)) (seq 0 n)) i
                <> None) by congruence.
    apply nth_error_Some in N. now rewrite length_map, length_seq in N. }
  rewrite nth_error_map, nth_error_seq in H'.
  destruct (Nat.ltb_spec i n) as [_|]; [|lia].
  cbn [option_map Nat.add] in H'. congruence.
Qed.

(** C7. Each pass prints exactly one line, "Sample #<n> produced!" with
    the counter of the pass in decimal: [n] complete passes print the
    lines for 1, 2, ..., [n], one in each pass, and the line of position
    [i] (counted from 0) of any finite run is the one for [i + 1]. *)
Theorem console_lines (w : env) fuel k n i l :
  answers w k (6 * n) ->
  printed (trace w (7 * n) k loop) =
    map (fun j => "Sample #" ++ str_of_int (Z.of_nat j) ++ " produced!")%string
        (seq 1 n) /\
  ((i < n)%nat ->
   printed (firstn 6 (skipn (6 * i) (trace w (7 * n) k loop))) =
   ["Sample #" ++ str_of_int (Z.of_nat i + 1) ++ " produced!"]%string) /\
  (nth_error (printed (trace w fuel k loop)) i = Some l ->
   l = "Sample #" ++ str_of_int (Z.of_nat i + 1) ++ " produced!")%string /\
  progress_line 1 = "Sample #1 produced!"%string.
Proof.
  intros A. split; [|split; [|split]].
  - unfold trace, loop. rewrite (run_complete w n k 1 A). cbn [fst].
    rewrite printed_passes, <- seq_shift, map_map.
    apply map_ext. intros j. unfold progress_line. do 3 f_equal. lia.
  - intros Hi. now rewrite (trace_segment w k n i A Hi).
  - intros H. apply printed_prefix in H. now rewrite Z.add_comm in H.
  - reflexivity.
Qed.

Lemma console_lines_witness :
  printed (trace (steady B64.half) 14 0 loop) =
    ["Sample #1 produced!"; "Sample #2 produced!"]%string /\
  ((1 < 2)%nat ->
   printed (firstn 6 (skipn 6 (trace (steady B64.half) 14 0 loop))) =
   ["Sample #2 produced!"]%string) /\
  (nth_error (printed (trace (steady B64.half) 11 0 loop)) 1 =
     Some "Sample #2 produced!"%string ->
   "Sample #2 produced!" = "Sample #2 produced!")%string /\
  progress_line 1 = "Sample #1 produced!"%string.
Proof.
  apply (console_lines (steady B64.half) 11 0 2 1 "Sample #2 produced!").
  intros j c _. destruct c; discriminate.
Defined.

(** A pass begins with a draw. *)
Lemma first_call (w : env) k c : trace w 1 k (loop_from c) = [Random].
Proof.
  unfold trace. step_run. now destruct (w k Random).
Qed.

(** A run ends as [Raised] at a call that the environment makes raise:
    the last call of its trace. *)
Lemma raised_at_last_call (w : env) : forall fuel k (t : itree ioE unit) tr,
  run w fuel k t = (tr, Raised) ->
  exists tr' c,
    tr = tr' ++ [c] /\ w (List.length tr' + k)%nat c = None /\
    (List.length tr' < fuel)%nat.
Proof.
  induction fuel as [|fuel IH]; intros k t tr H; [discriminate|].
  cbn [run] in H. destruct (observe t) as [r|t'|X e h]; [discriminate| |].
  - destruct (IH k t' tr H) as (tr' & c & E & N & L).
    exists tr', c. split; [exact E|]. split; [exact N|lia].
  - destruct e as [c]. destruct (w k c) as [a|] eqn:W.
    + destruct (run w fuel (S k) (h a)) as [tr0 o] eqn:R.
      unfold after in H. cbn [fst snd] in H. injection H as <- ->.
      destruct (IH (S k) (h a) tr0 R) as (tr' & c' & -> & N & L).
      exists (c :: tr'), c'. cbn [List.length app Nat.add].
      split; [reflexivity|]. split; [|lia].
      now replace (S (List.length tr' + k)) with (List.length tr' + S k)%nat by lia.
    + injection H as <-. exists [], c.
      split; [reflexivity|]. split; [exact W|cbn [List.length]; lia].
Qed.

(** C8, as amended. The loop has no exit of its own: no finite run of it
    reaches the end of the script, and when [n] passes have completed the
    next pass begins. A run of the loop ends only at a call that raises
    (an error of the library, or the interrupt a signal delivers), and
    that call is its last; while the calls return the loop is still
    running. *)
Theorem loop_never_exits (w : env) fuel k n :
  answers w k (6 * n) ->
  result w fuel k loop <> Finished /\
  trace w (7 * n + 1) k loop = passes w k 1 n ++ [Random] /\
  (~ still_running w fuel k loop ->
   exists tr c,
     run w fuel k loop = (tr ++ [c], Raised) /\
     w (List.length tr + k)%nat c = None) /\
  (answers w k fuel -> still_running w fuel k loop).
Proof.
  intros A.
  assert (U : result w fuel k loop <> Finished) by apply run_unfinished.
  assert (E : result w fuel k loop = Raised ->
              exists tr c,
                run w fuel k loop = (tr ++ [c], Raised) /\
                w (List.length tr + k)%nat c = None /\
                (List.length tr < fuel)%nat).
  { unfold result. intros R.
    destruct (run w fuel k loop) as [tr o] eqn:H. cbn [snd] in R. subst o.
    destruct (raised_at_last_call w fuel k loop tr H) as (tr' & c & -> & N & L).
    now exists tr', c. }
  split; [exact U|]. split; [|split].
  - unfold trace at 1, loop. rewrite (run_passes w n 1 k 1 A). cbn [fst].
    f_equal. apply first_call.
  - intros S. destruct (result w fuel k loop) as [rest| |] eqn:R.
    + exfalso. apply S. exists rest. exact R.
    + destruct (E eq_refl) as (tr & c & H & N & _). now exists tr, c.
    + now exfalso.
  - intros A'. destruct (result w fuel k loop) as [rest| |] eqn:R.
    + now exists rest.
    + exfalso. destruct (E eq_refl) as (tr & c & _ & N & L).
      apply (A' (List.length tr + k)%nat c); [lia|exact N].
    + now exfalso.
Qed.

Lemma loop_never_exits_witness :
  result (steady B64.half) 100 0 loop <> Finished /\
  trace (steady B64.half) (7 * 2 + 1) 0 loop =
    passes (steady B64.half) 0 1 2 ++ [Random] /\
  (~ still_running (steady B64.half) 100 0 loop ->
   exists tr c,
     run (steady B64.half) 100 0 loop = (tr ++ [c], Raised) /\
     steady B64.half (List.length tr + 0)%nat c = None) /\
  (answers (steady B64.half) 0 100 -> still_running (steady B64.half) 100 0 loop).
Proof.
  apply (loop_never_exits (steady B64.half) 100 0 2).
  intros j c _. destruct c; discriminate.
Defined.

(** C8 as stated fails: the loop also ends, with no signal, when a call
    it makes raises. When the first publish call raises (a full queue, an
    error of the client), the run is over after three calls, however long
    it is allowed to go on, though no pass has completed. *)
Lemma loop_ends_without_signal :
  answers (failing 2 B64.half) 0 2 /\
  run (failing 2 B64.half) 100 0 loop =
    ([Random; Random;
      Produce "test"
        (JObject
           [("value1"%string, JFloat (S754_finite false 4503599627370496 (-53)));
            ("value2"%string, JFloat (S754_finite false 6755399441055744 (-52)))])],
     Raised) /\
  trace (failing 2 B64.half) 1000 0 loop = trace (failing 2 B64.half) 100 0 loop /\
  ~ still_running (failing 2 B64.half) 100 0 loop.
Proof.
  split; [|split; [|split]].
  - intros j c Hj. unfold failing.
    destruct (Nat.eqb_spec j 2) as [E|_]; [lia|]. destruct c; discriminate.
  - vm_compute. reflexivity.
  - vm_compute. reflexivity.
  - intros [rest R]. vm_compute in R. discriminate R.
Qed.

(** C9. The payload of a pass is a function of the two draws of that
    pass alone: two runs, whatever their counters, their other draws and
    their lengths, publish the same payload in pass [i] when their two
    draws of pass [i] are equal. *)
Theorem payload_independence (w1 w2 : env) fuel1 fuel2 k1 k2 c1 c2 i p1 p2 :
  nth_error (payloads (trace w1 fuel1 k1 (loop_from c1))) i = Some p1 ->
  nth_error (payloads (trace w2 fuel2 k2 (loop_from c2))) i = Some p2 ->
  w1 (6 * i + k1)%nat Random = w2 (6 * i + k2)%nat Random ->
  w1 (1 + (6 * i + k1))%nat Random = w2 (1 + (6 * i + k2))%nat Random ->
  p1 = p2.
Proof.
  intros H1 H2 E1 E2.
  apply published_payload in H1. apply published_payload in H2.
  rewrite H1, H2. unfold first_draw, second_draw, drawn.
  now rewrite E1, E2.
Qed.

Lemma payload_independence_witness :
  json_dumps (sample B64.half B64.half) = json_dumps (sample B64.half B64.half).
Proof.
  apply (payload_independence
           (steady B64.half) (switching 6 B64.zero B64.half) 10 12 0 0 1 5 1);
    reflexivity.
Defined.

(** C10. Nothing in the loop recovers from an error: when the publish
    call (call 2 of a pass) or the flush (call 4), or any other call [j]
    of pass [n + 1], raises, the run ends with that call however much
    fuel is left; no later pass is made and nothing is published again. *)
Theorem no_recovery (w : env) fuel k n j :
  (j < 6)%nat ->
  answers w k (6 * n + j) ->
  raises w (6 * n + j + k) ->
  run w (7 * n + (j + 1 + fuel)) k loop =
  (passes w k 1 n ++ firstn (j + 1) (pass_at w (6 * n + k) (Z.of_nat n + 1)),
   Raised).
Proof.
  intros Hj A R. apply answers_split in A. destruct A as [A1 A2].
  unfold loop. rewrite (run_passes w n _ k 1 A1). unfold trace, result.
  rewrite (run_raise w (6 * n + k) (1 + Z.of_nat n) j fuel Hj A2).
  - cbn [fst snd]. now rewrite (Z.add_comm 1).
  - now replace (j + (6 * n + k))%nat with (6 * n + j + k)%nat by lia.
Qed.

Lemma no_recovery_witness :
  run (failing 8 B64.half) (7 * 1 + (2 + 1 + 5)) 0 loop =
  (passes (failing 8 B64.half) 0 1 1 ++
   firstn (2 + 1) (pass_at (failing 8 B64.half) (6 * 1 + 0) (Z.of_nat 1 + 1)),
   Raised).
Proof.
  apply (no_recovery (failing 8 B64.half) 5 0 1 2).
  - lia.
  - intros j c Hj. unfold failing.
    destruct (Nat.eqb_spec j 8) as [E|_]; [lia|]. destruct c; discriminate.
  - intros c. reflexivity.
Defined.

(** ** Further properties of the script and of the loop *)

(** *** The shape of every run *)

Lemma firstn_pass (w : env) k c j :
  firstn j (pass_at w k c) = firstn (Nat.min j 6) (pass_at w k c).
Proof.
  destruct (Nat.le_gt_cases j 6) as [L|G].
  - now rewrite Nat.min_l.
  - rewrite Nat.min_r by lia.
    do 7 (destruct j as [|j]; [lia|]). reflexivity.
Qed.

Lemma run_splits (w : env) : forall fuel k c,
  exists m j, (j <= 6)%nat /\
    trace w fuel k (loop_from c) =
    passes w k c m ++ firstn j (pass_at w (6 * m + k) (c + Z.of_nat m)).
Proof.
  induction fuel as [fuel IH] using (well_founded_induction lt_wf).
  intros k c. destruct (run_cases w fuel k c) as [[j [T _]]|[fuel' [F R]]].
  - exists 0%nat, (Nat.min j 6). split; [lia|].
    cbn [passes app Nat.mul Nat.add Z.of_nat]. rewrite Z.add_0_r, T.
    apply firstn_pass.
  - destruct (IH fuel' ltac:(lia) (6 + k)%nat (c + 1)) as (m & j & Hj & T).
    exists (S m), j. split; [exact Hj|].
    unfold trace at 1. rewrite R. cbn [fst passes]. rewrite T, app_assoc.
    replace (6 * m + (6 + k))%nat with (6 * S m + k)%nat by lia.
    now replace (c + 1 + Z.of_nat m) with (c + Z.of_nat (S m)) by lia.
Qed.

Lemma length_part (w : env) k c j :
  (j <= 6)%nat -> List.length (firstn j (pass_at w k c)) = j.
Proof.
  intros Hj. rewrite length_firstn. cbn [pass_at pass_calls List.length]. lia.
Qed.

(** X1. Whatever the environment does and however long the run is, the
    calls of the loop are a number [m] of complete passes followed by the
    first [j] calls of the next pass, [6 * m + j] calls in all: the loop
    never skips, repeats or reorders a call of its body. *)
Theorem run_shape (w : env) fuel k c :
  exists m j, (j <= 6)%nat /\
    trace w fuel k (loop_from c) =
    passes w k c m ++ firstn j (pass_at w (6 * m + k) (c + Z.of_nat m)) /\
    List.length (trace w fuel k (loop_from c)) = (6 * m + j)%nat.
Proof.
  destruct (run_splits w fuel k c) as (m & j & Hj & T).
  exists m, j. split; [exact Hj|]. split; [exact T|].
  now rewrite T, length_app, length_passes, length_part.
Qed.

(** *** Counting calls *)

Lemma count_app f tr1 tr2 : count f (tr1 ++ tr2) = (count f tr1 + count f tr2)%nat.
Proof. unfold count. now rewrite filter_app, length_app. Qed.

Lemma count_passes f a (w : env) :
  (forall k c, count f (pass_at w k c) = a) ->
  forall m k c, count f (passes w k c m) = (m * a)%nat.
Proof.
  intros H. induction m as [|m IH]; intros k c; [reflexivity|].
  cbn [passes]. rewrite count_app, H, IH. lia.
Qed.

(** X2. At every point of every run of the loop, the publish calls made
    so far are at most one more than the flushes, than the sleeps and
    than the printed lines, and never fewer: two publish calls are always
    separated by a print, a flush and a sleep. Two draws are made for
    each publish call, and at most two more. *)
Theorem call_counts (w : env) fuel k c :
  let tr := trace w fuel k (loop_from c) in
  (count is_flush tr <= count is_produce tr <= 1 + count is_flush tr)%nat /\
  (count is_sleep tr <= count is_produce tr <= 1 + count is_sleep tr)%nat /\
  (count is_print tr <= count is_produce tr <= 1 + count is_print tr)%nat /\
  (2 * count is_produce tr <= count is_draw tr <= 2 + 2 * count is_produce tr)%nat.
Proof.
  cbv zeta. destruct (run_splits w fuel k c) as (m & j & Hj & ->).
  rewrite !count_app.
  rewrite (count_passes is_flush 1 w), (count_passes is_sleep 1 w),
    (count_passes is_print 1 w), (count_passes is_produce 1 w),
    (count_passes is_draw 2 w) by reflexivity.
  generalize (6 * m + k)%nat (c + Z.of_nat m). intros k' c'.
  do 7 (destruct j as [|j]; [cbn; lia|]). lia.
Qed.

(** *** What is printed when a call raises *)

(** X3. The progress line of a sample tells that the publish call
    returned, not that the sample was delivered. When a draw or the publish
    call of pass [n + 1] raises ([j <= 2]), the lines printed are those of
    the [n] earlier passes; when the flush or the sleep raises
    ([4 <= j]), the line of pass [n + 1] has been printed as well. *)
Theorem line_reports_publish (w : env) fuel k n j :
  (j < 6)%nat -> j <> 3%nat ->
  answers w k (6 * n + j) ->
  raises w (6 * n + j + k) ->
  printed (trace w (7 * n + (j + 1 + fuel)) k loop) =
  map (fun i => progress_line (Z.of_nat i))
      (seq 1 (if (j <? 3)%nat then n else S n)).
Proof.
  intros Hj N A R. apply answers_split in A. destruct A as [A1 A2].
  unfold trace, loop. rewrite (run_passes w n _ k 1 A1). unfold trace, result.
  rewrite (run_raise w (6 * n + k) (1 + Z.of_nat n) j fuel Hj A2)
    by now replace (j + (6 * n + k))%nat with (6 * n + j + k)%nat by lia.
  cbn [fst]. rewrite printed_app, printed_passes.
  assert (L : forall m, map (fun i => progress_line (1 + Z.of_nat i)) (seq 0 m) =
                        map (fun i => progress_line (Z.of_nat i)) (seq 1 m)).
  { intros m. rewrite <- seq_shift, map_map. apply map_ext.
    intros i. f_equal. lia. }
  generalize (6 * n + k)%nat. intros k'.
  destruct j as [|[|[|[|[|[|j]]]]]]; try lia.
  - cbn [Nat.ltb Nat.leb firstn pass_at pass_calls printed flat_map Nat.add app].
    now rewrite app_nil_r, L.
  - cbn [Nat.ltb Nat.leb firstn pass_at pass_calls printed flat_map Nat.add app].
    now rewrite app_nil_r, L.
  - cbn [Nat.ltb Nat.leb firstn pass_at pass_calls printed flat_map Nat.add app].
    now rewrite app_nil_r, L.
  - cbn [Nat.ltb Nat.leb firstn pass_at pass_calls printed flat_map Nat.add app].
    rewrite <- L, seq_S, map_app. cbn [map Nat.add]. now rewrite Z.add_comm.
  - cbn [Nat.ltb Nat.leb firstn pass_at pass_calls printed flat_map Nat.add app].
    rewrite <- L, seq_S, map_app. cbn [map Nat.add]. now rewrite Z.add_comm.
Qed.

Lemma line_reports_publish_witness :
  printed (trace (failing 8 B64.half) (7 * 1 + (2 + 1 + 5)) 0 loop) =
    ["Sample #1 produced!"%string] /\
  printed (trace (failing 10 B64.half) (7 * 1 + (4 + 1 + 5)) 0 loop) =
    ["Sample #1 produced!"%string; "Sample #2 produced!"%string].
Proof.
  split.
  - apply (line_reports_publish (failing 8 B64.half) 5 0 1 2); try lia.
    + intros j c Hj. unfold failing.
      destruct (Nat.eqb_spec j 8) as [E|_]; [lia|]. destruct c; discriminate.
    + intros c. reflexivity.
  - apply (line_reports_publish (failing 10 B64.half) 5 0 1 4); try lia.
    + intros j c Hj. unfold failing.
      destruct (Nat.eqb_spec j 10) as [E|_]; [lia|]. destruct c; discriminate.
    + intros c. reflexivity.
Defined.

(** *** What the calls return *)

(** X4. The loop uses nothing of what its calls return but the two draws:
    in two environments that return the same draws and raise at the same
    calls, whatever [flush] reports about undelivered messages, the loop
    makes the same calls with the same arguments. *)
Theorem returns_ignored (w1 w2 : env) :
  same_draws_and_errors w1 w2 ->
  forall fuel k c,
    trace w1 fuel k (loop_from c) = trace w2 fuel k (loop_from c).
Proof.
  intros H.
  induction fuel as [fuel IH] using (well_founded_induction lt_wf).
  intros k c. unfold trace.
  destruct fuel as [|fuel]; [reflexivity|]. step_run. sync H w1 w2.
  destruct fuel as [|fuel]; [reflexivity|]. step_run. sync H w1 w2.
  destruct fuel as [|fuel]; [reflexivity|]. step_run. sync H w1 w2.
  destruct fuel as [|fuel]; [reflexivity|]. step_run. sync H w1 w2.
  destruct fuel as [|fuel]; [reflexivity|]. step_run. sync H w1 w2.
  destruct fuel as [|fuel]; [reflexivity|]. step_run. sync H w1 w2.
  destruct fuel as [|fuel]; [reflexivity|]. step_run.
  do 6 f_equal. apply (IH fuel ltac:(lia) _ (c + 1)).
Qed.

Lemma returns_ignored_witness :
  trace (steady B64.half) 20 0 (loop_from 1) =
  trace (backlog 7 B64.half) 20 0 (loop_from 1).
Proof.
  apply (returns_ignored (steady B64.half) (backlog 7 B64.half)).
  intros k. split; [reflexivity|].
  intros c. split; destruct c; discriminate.
Defined.

(** *** The two fields of a sample *)

Lemma below_one_lt x y :
  unit_draw x -> B64.leb B64.one y = true -> B64.ltb x y = true.
Proof.
  intros Hx Hy.
  destruct (unit_draw_shape x Hx) as [[s ->]|(m & e & -> & He & _)];
    rewrite one_eq in Hy;
    destruct y as [s'|[|]| |[|] m' e']; try discriminate; try reflexivity.
  unfold B64.leb, SFleb, SFcompare in Hy. unfold B64.ltb, SFltb, SFcompare.
  destruct (Z.compare_spec (-52) e') as [E|E|E]; try discriminate.
  - subst e'. destruct (Z.compare_spec e (-52)) as [E|E|E];
      [exfalso; lia|reflexivity|exfalso; lia].
  - destruct (Z.compare_spec e e') as [E'|E'|E'];
      [exfalso; lia|reflexivity|exfalso; lia].
Qed.

(** X5. In every sample the loop publishes, in an environment whose
    [random()] returns binary64 values of [0.0, 1.0), value1 is strictly
    below value2. *)
Theorem fields_ordered (w : env) fuel k c i p v1 v2 :
  fair w ->
  nth_error (payloads (trace w fuel k (loop_from c))) i = Some p ->
  member "value1" p = Some (JFloat v1) ->
  member "value2" p = Some (JFloat v2) ->
  B64.ltb v1 v2 = true.
Proof.
  intros F H M1 M2. apply published_payload in H. subst p.
  injection M1 as <-. injection M2 as <-.
  apply below_one_lt.
  - apply (fair_drawn w _ F).
  - apply add_one_unit_draw, (fair_drawn w _ F).
Qed.

Lemma fields_ordered_witness :
  B64.ltb B64.below_one B64.two = true.
Proof.
  apply (fields_ordered (steady B64.below_one) 3 0 1 0
           (json_dumps (sample B64.below_one B64.below_one))).
  - intros k r E. injection E as <-. repeat split.
  - reflexivity.
  - reflexivity.
  - reflexivity.
Defined.

(** *** The progress lines *)

Lemma length_append (s t : string) :
  String.length (s ++ t) = (String.length s + String.length t)%nat.
Proof.
  induction s as [|a s IH]; cbn [String.append String.length Nat.add];
    [reflexivity|now rewrite IH].
Qed.

Lemma append_cancel_r (t : string) : forall x y : string,
  (x ++ t = y ++ t)%string -> x = y.
Proof.
  induction x as [|a x IH]; intros [|b y] H; cbn [String.append] in H.
  - reflexivity.
  - exfalso. apply (f_equal String.length) in H.
    cbn [String.length] in H. rewrite length_append in H. lia.
  - exfalso. apply (f_equal String.length) in H.
    cbn [String.length] in H. rewrite length_append in H. lia.
  - injection H as -> H. f_equal. now apply IH.
Qed.

Lemma to_int_proper (n : Z) :
  Z.to_int n <> Decimal.Pos Decimal.Nil /\ Z.to_int n <> Decimal.Neg Decimal.Nil.
Proof.
  destruct n as [|p|p]; cbn [Z.to_int]; split; try discriminate;
    intros [= E]; now apply Unsigned.to_uint_nonnil in E.
Qed.

(** [str] of an int can be read back: distinct ints have distinct
    decimal texts. *)
Lemma str_of_int_inj (a b : Z) : str_of_int a = str_of_int b -> a = b.
Proof.
  unfold str_of_int. intros H.
  apply (f_equal NilZero.int_of_string) in H.
  destruct (to_int_proper a) as [A1 A2]. destruct (to_int_proper b) as [B1 B2].
  rewrite !NilZero.isi in H by assumption.
  injection H as H. now apply DecimalZ.to_int_inj.
Qed.

Lemma progress_line_inj (a b : Z) : progress_line a = progress_line b -> a = b.
Proof.
  unfold progress_line. intros H.
  cbn [String.append] in H. injection H as H.
  now apply str_of_int_inj, (append_cancel_r " produced!").
Qed.

(** X6. The loop never prints the same line twice: the lines of a run
    are pairwise distinct, and a line determines the counter it
    reports. *)
Theorem lines_distinct (w : env) fuel k c :
  NoDup (printed (trace w fuel k (loop_from c))) /\
  forall i l,
    nth_error (printed (trace w fuel k (loop_from c))) i = Some l ->
    forall n : Z, l = progress_line n -> n = c + Z.of_nat i.
Proof.
  split.
  - destruct (run_prefix w fuel k c) as [n [rest P]].
    assert (D : NoDup (printed (trace w fuel k (loop_from c)) ++ printed rest)).
    { rewrite <- printed_app, <- P, printed_passes.
      apply Injective_map_NoDup; [|apply seq_NoDup].
      intros i j E. apply progress_line_inj in E. lia. }
    now apply NoDup_app_remove_r in D.
  - intros i l H n ->. apply printed_prefix in H.
    now apply progress_line_inj.
Qed.

(** *** The script as a whole *)

Lemma script_unfold (w : env) fuel :
  run w (S fuel) 0 script =
  match w 0%nat (NewProducer conf) with
  | None => ([NewProducer conf], Raised)
  | Some a =>
      after (NewProducer conf)
        (run w fuel 1 (ITree.bind (Ret (a : unit)) (fun _ : unit => loop)))
  end.
Proof. reflexivity. Qed.

(** Past the creation of the producer the script is the loop. *)
Lemma enter_loop (w : env) fuel k (a : unit) :
  trace w fuel k (ITree.bind (Ret a) (fun _ : unit => loop)) = trace w fuel k loop /\
  result w fuel k (ITree.bind (Ret a) (fun _ : unit => loop)) <> Finished.
Proof.
  destruct fuel as [|fuel]; [split; [reflexivity|discriminate]|].
  split; [reflexivity|]. exact (run_unfinished w (S fuel) k 1).
Qed.

Lemma loop_creates_nothing (w : env) fuel k c :
  count is_new_producer (trace w fuel k (loop_from c)) = 0%nat.
Proof.
  destruct (run_splits w fuel k c) as (m & j & Hj & ->).
  rewrite count_app, (count_passes is_new_producer 0 w) by reflexivity.
  generalize (6 * m + k)%nat (c + Z.of_nat m). intros k' c'.
  do 7 (destruct j as [|j]; [cbn; lia|]). lia.
Qed.

(** X7. The script first creates the producer, for the broker at
    localhost:9092, and then runs the loop from call 1 with the counter
    at 1: when the creation returns and the next [6 * n] calls return,
    its calls are the creation followed by [n] complete passes. *)
Theorem script_run (w : env) n :
  w 0%nat (NewProducer [("bootstrap.servers"%string, PyStr "localhost:9092")])
    = Some tt ->
  answers w 1 (6 * n) ->
  trace w (1 + 7 * n) 0 script =
    NewProducer [("bootstrap.servers"%string, PyStr "localhost:9092")]
    :: passes w 1 1 n /\
  printed (trace w (1 + 7 * n) 0 script) =
    map (fun i => progress_line (Z.of_nat i)) (seq 1 n).
Proof.
  intros E A.
  assert (T : trace w (1 + 7 * n) 0 script = NewProducer conf :: passes w 1 1 n).
  { unfold trace at 1. cbn [Nat.add]. rewrite script_unfold.
    change (NewProducer conf)
      with (NewProducer [("bootstrap.servers"%string, PyStr "localhost:9092")]).
    rewrite E. cbn [after fst].
    change (fst (run w (7 * n) 1 (ITree.bind (Ret tt) (fun _ : unit => loop))))
      with (trace w (7 * n) 1 (ITree.bind (Ret tt) (fun _ : unit => loop))).
    rewrite (proj1 (enter_loop w (7 * n) 1 tt)).
    unfold trace, loop. now rewrite (run_complete w n 1 1 A). }
  split; [exact T|].
  rewrite T. change (printed (NewProducer conf :: passes w 1 1 n))
    with (printed (passes w 1 1 n)).
  rewrite printed_passes, <- seq_shift, map_map.
  apply map_ext. intros i. f_equal. lia.
Qed.

Lemma script_run_witness :
  trace (steady B64.half) (1 + 7 * 2) 0 script =
    NewProducer [("bootstrap.servers"%string, PyStr "localhost:9092")]
    :: passes (steady B64.half) 1 1 2 /\
  printed (trace (steady B64.half) (1 + 7 * 2) 0 script) =
    ["Sample #1 produced!"%string; "Sample #2 produced!"%string].
Proof.
  apply (script_run (steady B64.half) 2).
  - reflexivity.
  - intros j c _. destruct c; discriminate.
Defined.

(** X8. In every run of the script the producer is created exactly once,
    by the first call, and never again; the script never runs to its end,
    and every publish call names "test". *)
Theorem producer_once (w : env) fuel :
  hd_error (trace w (S fuel) 0 script) = Some (NewProducer conf) /\
  count is_new_producer (trace w (S fuel) 0 script) = 1%nat /\
  result w (S fuel) 0 script <> Finished /\
  Forall (fun d => d = "test"%string) (destinations (trace w (S fuel) 0 script)).
Proof.
  unfold trace, result. rewrite script_unfold.
  destruct (w 0%nat (NewProducer conf)) as [a|].
  - destruct (enter_loop w fuel 1 a) as [T R]. unfold trace, result in T, R.
    revert T R. change (answer (NewProducer conf)) with unit in *.
    destruct (run w fuel 1 (ITree.bind (Ret a) (fun _ : unit => loop)))
      as [tr o]. cbn [fst snd]. intros -> R.
    unfold after. cbn [fst snd hd_error].
    split; [reflexivity|]. split; [|split].
    + change (count is_new_producer (NewProducer conf :: fst (run w fuel 1 loop)))
        with (S (count is_new_producer (trace w fuel 1 (loop_from 1)))).
      now rewrite loop_creates_nothing.
    + exact R.
    + change (destinations (NewProducer conf :: fst (run w fuel 1 loop)))
        with (destinations (trace w fuel 1 (loop_from 1))).
      destruct (run_prefix w fuel 1 1) as [m [rest P]].
      assert (D : Forall (fun d => d = "test"%string)
                    (destinations (trace w fuel 1 (loop_from 1)) ++ destinations rest)).
      { rewrite <- destinations_app, <- P, destinations_passes.
        apply Forall_forall. intros d Hd. now apply repeat_spec in Hd. }
      now apply Forall_app in D.
  - repeat split; [discriminate|constructor].
Qed.

(** X9. When the producer cannot be created the script stops there: it
    draws nothing, publishes nothing and prints nothing, however long it
    is allowed to run. *)
Theorem producer_failure (w : env) fuel :
  raises w 0 ->
  run w (S fuel) 0 script = ([NewProducer conf], Raised) /\
  payloads (trace w (S fuel) 0 script) = [] /\
  printed (trace w (S fuel) 0 script) = [] /\
  count is_draw (trace w (S fuel) 0 script) = 0%nat.
Proof.
  intros R. unfold trace. rewrite script_unfold, (R (NewProducer conf)).
  repeat split.
Qed.

Lemma producer_failure_witness :
  run (failing 0 B64.half) 50 0 script = ([NewProducer conf], Raised) /\
  payloads (trace (failing 0 B64.half) 50 0 script) = [] /\
  printed (trace (failing 0 B64.half) 50 0 script) = [] /\
  count is_draw (trace (failing 0 B64.half) 50 0 script) = 0%nat.
Proof.
  apply (producer_failure (failing 0 B64.half) 49).
  intros c. reflexivity.
Defined.

(** *** The rounding of value2 *)

(** X10. For a draw [m * 2^e] of [0.0, 1.0), value2 is [q * 2^-52] for an
    integer [q] of [2^52, 2^53] (2.0 when [q] is [2^53]), and differs from
    the exact sum [1 + m * 2^e] by at most [2^-52]: scaled by [2^-e], the
    exact sum [2^-e + m] lies between [(q - 1) * 2^(-52-e)] and
    [(q + 1) * 2^(-52-e)]. *)
Theorem value2_rounding (m : positive) (e : Z) :
  unit_draw (S754_finite false m e) ->
  exists q : Z,
    2 ^ 52 <= q <= 2 ^ 53 /\
    int_add_float 1 (S754_finite false m e) =
      (if q =? 2 ^ 53 then B64.two else S754_finite false (Z.to_pos q) (-52)) /\
    (q - 1) * 2 ^ (-52 - e) <= 2 ^ (- e) + Zpos m <= (q + 1) * 2 ^ (-52 - e).
Proof.
  intros H.
  destruct (unit_draw_shape _ H) as [[s E]|(m' & e' & E & He & Hm)];
    [discriminate|].
  injection E as <- <-.
  destruct (add_one_finite m e He Hm) as (q & Q & Hq & A).
  exists q. split; [exact Hq|]. split; [exact A|].
  assert (P : 0 < 2 ^ (-52 - e)) by (apply Z.pow_pos_nonneg; lia).
  pose proof (Z.div_mod (2 ^ (- e) + Zpos m) (2 ^ (-52 - e)) ltac:(lia)) as D.
  pose proof (Z.mod_pos_bound (2 ^ (- e) + Zpos m) (2 ^ (-52 - e)) P) as B.
  clear - Q P D B. revert Q P D B.
  generalize ((2 ^ (- e) + Zpos m) mod 2 ^ (-52 - e)).
  generalize ((2 ^ (- e) + Zpos m) / 2 ^ (-52 - e)).
  generalize (2 ^ (- e) + Zpos m). generalize (2 ^ (-52 - e)).
  intros p s d r [-> | ->] P D B; nia.
Qed.

Lemma value2_rounding_witness :
  exists q : Z,
    2 ^ 52 <= q <= 2 ^ 53 /\
    int_add_float 1 (S754_finite false 4503599627370496 (-53)) =
      (if q =? 2 ^ 53 then B64.two else S754_finite false (Z.to_pos q) (-52)) /\
    (q - 1) * 2 ^ (-52 - -53) <= 2 ^ (- -53) + 4503599627370496
      <= (q + 1) * 2 ^ (-52 - -53).
Proof.
  apply (value2_rounding 4503599627370496 (-53)).
  repeat split.
Defined.

Lemma lines_distinct_witness :
  NoDup (printed (trace (steady B64.half) 20 0 (loop_from 1))) /\
  forall i l,
    nth_error (printed (trace (steady B64.half) 20 0 (loop_from 1))) i = Some l ->
    forall n : Z, l = progress_line n -> n = 1 + Z.of_nat i.
Proof.
  exact (lines_distinct (steady B64.half) 20 0 1).
Defined.
